(** * One-compartment oral pharmacokinetics: the simulator of [app.py]

    The development embeds the numeric core of [app.py]:

    - [oral_one_comp_conc] (lines 8-16), the superposition of single-dose
      curves over a time grid;
    - [pk_metrics] (lines 18-22), Cmax, Tmax and the trapezoidal AUC;
    - the derived inputs of lines 48-49, the time grid ([np.arange]) and
      the dose schedule.

    Scalars are Python floats.  In module [Sim] and [Heap] they are read as
    real numbers, so that [np.exp] is the real exponential; what Python
    raises (division by a zero float, [np.argmax] of an empty array, an
    index out of range, shapes that do not broadcast) is kept as an
    explicit error result.  Module [Binary64] runs the time grid of line 48
    on IEEE binary64 numbers, where the rounding of the quotient that
    [np.arange] takes the ceiling of is visible. *)

From Stdlib Require Import Reals Lra Lia List ZArith Bool Floats Permutation.
Import ListNotations.

(** ** Python results: a value or a raised exception *)

Inductive exn : Type :=
| ZeroDivisionError
| ValueError
| IndexError
| TypeError
| OverflowError.

Inductive result (A : Type) : Type :=
| Ok (a : A)
| Raise (e : exn).

Arguments Ok {A} a.
Arguments Raise {A} e.

Definition rbind {A B : Type} (r : result A) (k : A -> result B) : result B :=
  match r with
  | Ok a => k a
  | Raise e => Raise e
  end.

Definition rmap {A B : Type} (f : A -> B) (r : result A) : result B :=
  rbind r (fun a => Ok (f a)).

Declare Scope result_scope.
Delimit Scope result_scope with result.
Notation "x <- c ;; k" := (rbind c (fun x => k))
  (at level 61, c at next level, right associativity) : result_scope.

(** ** Generic list helpers in the shape numpy uses them *)

Section Arrays.
Context {A B C : Type}.

(** Elementwise binary operation on two arrays of one shape. *)
Fixpoint zip_with (f : A -> B -> C) (a : list A) (b : list B) : list C :=
  match a, b with
  | x :: a', y :: b' => f x y :: zip_with f a' b'
  | _, _ => []
  end.

(** [a[mask]]: the elements of [a] where the boolean mask holds. *)
Fixpoint take_mask (a : list A) (mask : list bool) : list A :=
  match a, mask with
  | x :: a', true :: m' => x :: take_mask a' m'
  | _ :: a', false :: m' => take_mask a' m'
  | _, _ => []
  end.
End Arrays.

Open Scope R_scope.

(** [C[mask] += rhs]: the selected cells of [C] receive, in order, the
    elements of [rhs]; the other cells are not written. *)
Fixpoint iadd_mask (C : list R) (mask : list bool) (rhs : list R) : list R :=
  match C, mask with
  | c :: C', true :: m' =>
      match rhs with
      | r :: rhs' => (c + r) :: iadd_mask C' m' rhs'
      | [] => c :: C'
      end
  | c :: C', false :: m' => c :: iadd_mask C' m' rhs
  | _, _ => C
  end.

(** ** Scalar operations of Python floats, over the reals *)

(** The literal [1e-12]. *)
Definition eps : R := / 10 ^ 12.

(** [x >= y] as a boolean. *)
Definition Rgeb (x y : R) : bool := if Rge_dec x y then true else false.

(** [x <= y] as a boolean. *)
Definition Rleb (x y : R) : bool := if Rle_dec x y then true else false.

(** Python's [max(a, b)]: [a] is kept unless [b > a]. *)
Definition py_max (a b : R) : R := if Rgt_dec b a then b else a.

(** Python's float division [a / b]: raises on a zero divisor. *)
Definition py_div (a b : R) : result R :=
  if Req_dec_T b 0 then Raise ZeroDivisionError else Ok (a / b).

(** Least integer not below [x] ([math.ceil]). *)
Definition Rceil (x : R) : Z := (- Int_part (- x))%Z.

Module Sim.

(** *** [oral_one_comp_conc], lines 8-16 *)

(** [np.zeros_like(t, dtype=float)] *)
Definition zeros_like (t : list R) : list R := map (fun _ => 0) t.

(** Line 11: [coef = F * D * ka / (V * max(1e-12, (ka - ke)))] *)
Definition coef (D F ka ke V : R) : result R :=
  py_div (F * D * ka) (V * py_max eps (ka - ke)).

(** Lines 13-15, one pass of the loop for the dose given at [ti]. *)
Definition dose_update (coef ka ke : R) (t : list R) (C : list R) (ti : R)
  : list R :=
  let dt := map (fun x => x - ti) t in
  let mask := map (fun x => Rgeb x 0) dt in
  let sel := take_mask dt mask in
  iadd_mask C mask
    (map (fun d => coef * (exp (- ke * d) - exp (- ka * d))) sel).

Definition oral_one_comp_conc (t dose_times : list R) (D F ka ke V : R)
  : result (list R) :=
  let C := zeros_like t in
  (coef <- coef D F ka ke V ;;
   Ok (fold_left (dose_update coef ka ke t) dose_times C))%result.

(** *** [pk_metrics], lines 18-22 *)

(** The scan of [np.argmax]: the running maximum [mp] at index [best] is
    replaced by a later element [x] at index [i] when [not (x <= mp)]. *)
Fixpoint argmax_scan (mp : R) (best i : nat) (l : list R) : nat :=
  match l with
  | [] => best
  | x :: l' =>
      if Rleb x mp then argmax_scan mp best (S i) l'
      else argmax_scan x i (S i) l'
  end.

(** [np.argmax(C)]: raises [ValueError] on an empty array. *)
Definition np_argmax (C : list R) : result nat :=
  match C with
  | [] => Raise ValueError
  | c :: C' => Ok (argmax_scan c 0 1 C')
  end.

(** [a[i]] for a non-negative index. *)
Definition getitem (a : list R) (i : nat) : result R :=
  match nth_error a i with
  | Some x => Ok x
  | None => Raise IndexError
  end.

(** [np.diff(x)]: [x[1:] - x[:-1]]. *)
Definition np_diff (x : list R) : list R :=
  zip_with Rminus (tl x) (removelast x).

(** Elementwise product with numpy broadcasting of one-dimensional
    arrays: equal lengths, or one side of length one. *)
Definition broadcast_mul (d s : list R) : result (list R) :=
  if (length d =? length s)%nat then Ok (zip_with Rmult d s)
  else if (length d =? 1)%nat then Ok (map (fun y => hd 0 d * y) s)
  else if (length s =? 1)%nat then Ok (map (fun x => x * hd 0 s) d)
  else Raise ValueError.

(** [a.sum()] *)
Definition np_sum (a : list R) : R := fold_left Rplus a 0.

(** [np.trapz(y, x)]: [(d * (y[1:] + y[:-1]) / 2.0).sum()] with
    [d = diff(x)]. *)
Definition np_trapz (y x : list R) : result R :=
  let d := np_diff x in
  (p <- broadcast_mul d (zip_with Rplus (tl y) (removelast y)) ;;
   Ok (np_sum (map (fun v => v / 2) p)))%result.

Definition pk_metrics (t C : list R) : result (R * R * R) :=
  (idx <- np_argmax C ;;
   Cmax <- getitem C idx ;;
   Tmax <- getitem t idx ;;
   AUC <- np_trapz C t ;;
   Ok (Cmax, Tmax, AUC))%result.

(** *** Derived inputs, lines 48-49 *)

(** [range(n)] for a Python integer [n]: empty when [n <= 0]. *)
Definition py_range (n : Z) : list Z := map Z.of_nat (seq 0 (Z.to_nat n)).

(** [np.arange(start, stop, step)] on floats: [ceil((stop - start)/step)]
    points; the first two are [start] and [start + step], the others
    [start + i * delta] with [delta = (start + step) - start]. *)
Definition np_arange (start stop step : R) : result (list R) :=
  (q <- py_div (stop - start) step ;;
   let next := start + step in
   let delta := next - start in
   Ok (match Z.to_nat (Rceil q) with
       | O => []
       | S O => [start]
       | S (S m) =>
           start :: next
             :: map (fun i => start + INR i * delta) (seq 2 m)
       end))%result.

(** Line 48: [t = np.arange(0.0, t_end_h + dt_h, dt_h)] *)
Definition time_grid (t_end dt : R) : result (list R) :=
  np_arange 0 (t_end + dt) dt.

(** Line 49:
    [dose_times = np.array([i * tau_h for i in range(int(n_doses))]) + tlag_h] *)
Definition dose_times (tau : R) (n_doses : Z) (tlag : R) : list R :=
  map (fun x => x + tlag) (map (fun i => IZR i * tau) (py_range n_doses)).

End Sim.

(** ** The same code over a store of arrays

    [oral_one_comp_conc] writes into an array ([C[mask] += ...]), and its
    arguments are references to arrays that the caller keeps.  Here the
    arrays live in a store and the functions take and return addresses.
    Temporaries that no name outlives the statement for ([t - ti], the mask,
    the right-hand side) stay values. *)

Module Heap.

Definition loc : Type := nat.

Definition store : Type := list (list R).

(** A computation returns a value or raises, and leaves a store. *)
Definition M (A : Type) : Type := store -> result A * store.

Definition ret {A : Type} (a : A) : M A := fun s => (Ok a, s).

Definition bind {A B : Type} (m : M A) (k : A -> M B) : M B :=
  fun s =>
    match m s with
    | (Ok a, s') => k a s'
    | (Raise e, s') => (Raise e, s')
    end.

Definition lift {A : Type} (r : result A) : M A := fun s => (r, s).

Declare Scope heap_scope.
Delimit Scope heap_scope with heap.
Notation "x <- c ;; k" := (bind c (fun x => k))
  (at level 61, c at next level, right associativity) : heap_scope.
Notation "c ;;; k" := (bind c (fun _ => k))
  (at level 61, right associativity) : heap_scope.

(** A fresh array, at the next free address. *)
Definition new_array (a : list R) : M loc :=
  fun s => (Ok (length s), s ++ [a]).

(** The contents of the array at [l]. *)
Definition load (l : loc) : M (list R) :=
  fun s =>
    match nth_error s l with
    | Some a => (Ok a, s)
    | None => (Raise TypeError, s)
    end.

Fixpoint set_nth (s : store) (l : loc) (a : list R) : store :=
  match s, l with
  | [] , _ => []
  | _ :: s', O => a :: s'
  | b :: s', S l' => b :: set_nth s' l' a
  end.

(** In-place replacement of the contents of the array at [l]. *)
Definition store_array (l : loc) (a : list R) : M unit :=
  fun s => (Ok tt, set_nth s l a).

(** [for i in ...: body(i)] *)
Fixpoint for_each {A : Type} (l : list A) (body : A -> M unit) : M unit :=
  match l with
  | [] => ret tt
  | i :: l' => (body i ;;; for_each l' body)%heap
  end.

(** Lines 13-15 for the dose at index [i] of the array [dose_times]; the
    iteration reads the element from the array when it reaches it. *)
Definition loop_body (t dose_times C : loc) (coef ka ke : R) (i : nat)
  : M unit :=
  (dv <- load dose_times ;;
   ti <- lift (Sim.getitem dv i) ;;
   tv <- load t ;;
   let dt := map (fun x => x - ti) tv in
   let mask := map (fun x => Rgeb x 0) dt in
   let rhs :=
     map (fun d => coef * (exp (- ke * d) - exp (- ka * d)))
       (take_mask dt mask) in
   Cv <- load C ;;
   store_array C (iadd_mask Cv mask rhs))%heap.

(** [t = np.asarray(t)] returns the array it is given, so [t] keeps its
    address; [C] is a new array. *)
Definition oral_one_comp_conc (t dose_times : loc) (D F ka ke V : R)
  : M loc :=
  (tv <- load t ;;
   C <- new_array (Sim.zeros_like tv) ;;
   coef <- lift (Sim.coef D F ka ke V) ;;
   dv <- load dose_times ;;
   for_each (seq 0 (length dv)) (loop_body t dose_times C coef ka ke) ;;;
   ret C)%heap.

Definition pk_metrics (t C : loc) : M (R * R * R) :=
  (Cv <- load C ;;
   idx <- lift (Sim.np_argmax Cv) ;;
   Cmax <- lift (Sim.getitem Cv idx) ;;
   tv <- load t ;;
   Tmax <- lift (Sim.getitem tv idx) ;;
   AUC <- lift (Sim.np_trapz Cv tv) ;;
   ret (Cmax, Tmax, AUC))%heap.

End Heap.

(** ** The time grid on IEEE binary64 numbers *)

Module Binary64.

(** [ceil] of a float as an integer; numpy refuses a NaN or an infinite
    length. *)
Definition ceil_to_Z (x : float) : result Z :=
  match Prim2SF x with
  | S754_zero _ => Ok 0%Z
  | S754_finite s m e =>
      let v := if s then Z.neg m else Z.pos m in
      Ok (if (0 <=? e)%Z then v * 2 ^ e else - ((- v) / 2 ^ (- e)))%Z
  | S754_infinity _ => Raise OverflowError
  | S754_nan => Raise ValueError
  end.

Definition float_of_nat (i : nat) : float :=
  PrimFloat.of_uint63 (Uint63.of_Z (Z.of_nat i)).

(** Python's float division. *)
Definition py_div (a b : float) : result float :=
  if PrimFloat.eqb b PrimFloat.zero then Raise ZeroDivisionError
  else Ok (PrimFloat.div a b).

(** [np.arange(start, stop, step)], as [Sim.np_arange] with every
    operation rounded. *)
Definition np_arange (start stop step : float) : result (list float) :=
  (q <- py_div (PrimFloat.sub stop start) step ;;
   n <- ceil_to_Z q ;;
   let next := PrimFloat.add start step in
   let delta := PrimFloat.sub next start in
   Ok (match Z.to_nat n with
       | O => []
       | S O => [start]
       | S (S m) =>
           start :: next
             :: map (fun i =>
                       PrimFloat.add start (PrimFloat.mul (float_of_nat i) delta))
                  (seq 2 m)
       end))%result.

(** Line 48: [t = np.arange(0.0, t_end_h + dt_h, dt_h)] *)
Definition time_grid (t_end dt : float) : result (list float) :=
  np_arange PrimFloat.zero (PrimFloat.add t_end dt) dt.

End Binary64.

(** ** The page script: inputs, derived parameters and the run

    Lines 26-43 read the inputs from widgets, lines 46-49 derive the
    parameters, lines 52-53 call the two helpers. *)

Module App.

(** The values of the widgets of lines 26-43. *)
Record inputs : Type := mkInputs {
  weight_kg : R;
  age_years : R;
  CL_L_h : R;
  ka_h : R;
  F : R;
  Vd_per_kg : R;
  dose_mg : R;
  tau_h : R;
  n_doses : Z;
  tlag_h : R;
  t_end_h : R;
  dt_h : R
}.

(** The bounds the widgets are created with ([min_value], [max_value]). *)
Definition in_range (i : inputs) : Prop :=
  1 <= weight_kg i /\
  0 <= age_years i /\
  1 / 10 <= CL_L_h i /\
  1 / 100 <= ka_h i /\
  5 / 100 <= F i <= 99 / 100 /\
  1 / 10 <= Vd_per_kg i /\
  1 <= dose_mg i /\
  1 <= tau_h i /\
  (1 <= n_doses i)%Z /\
  0 <= tlag_h i /\
  1 <= t_end_h i /\
  1 / 100 <= dt_h i.

(** The values the widgets start with ([value]). *)
Definition defaults : inputs :=
  mkInputs 70 40 18 (14 / 10) (88 / 100) (9 / 10) 1000 8 3 0 24 (5 / 100).





End App.

(** ** Vocabulary of the specification *)

Module Spec.

Definition Rsum (l : list R) : R := fold_right Rplus 0 l.

(** The single-dose kernel [c(t; ti)], its denominator guarded as on
    line 11. *)
Definition kernel (D F ka ke V t ti : R) : R :=
  F * D * ka / (V * py_max eps (ka - ke))
  * (exp (- ke * (t - ti)) - exp (- ka * (t - ti))).

(** The sum of the kernels of the doses given at or before [t]. *)
Definition superposition (D F ka ke V : R) (dose_times : list R) (t : R) : R :=
  Rsum (map (kernel D F ka ke V t) (filter (fun ti => Rleb ti t) dose_times)).




(** [m] is the greatest value of [C]. *)
Definition is_max (C : list R) (m : R) : Prop :=
  In m C /\ forall x, In x C -> x <= m.

(** [i] is the first index of [C] that holds [m]. *)
Definition first_index_of (C : list R) (m : R) (i : nat) : Prop :=
  nth_error C i = Some m /\
  forall j c, (j < i)%nat -> nth_error C j = Some c -> c <> m.

(** The trapezoidal rule over adjacent pairs of points. *)
Fixpoint trapezoid_sum (t C : list R) : R :=
  match t, C with
  | t0 :: t', c0 :: C' =>
      match t', C' with
      | t1 :: _, c1 :: _ =>
          (c0 + c1) / 2 * (t1 - t0) + trapezoid_sum t' C'
      | _, _ => 0
      end
  | _, _ => 0
  end.


End Spec.


(** What one pass of the loop, for the dose at [ti], does to the cell of
    the grid point [tj] that holds [cj]. *)
Definition cell_update (c ka ke tj cj ti : R) : R :=
  if Rgeb (tj - ti) 0
  then cj + c * (exp (- ke * (tj - ti)) - exp (- ka * (tj - ti)))
  else cj.

(** ** The simulator, point by point *)

Section Pointwise.
Variables (c ka ke : R).

Lemma dose_update_zip (t C : list R) (ti : R) :
  length C = length t ->
  Sim.dose_update c ka ke t C ti
  = zip_with (fun tj cj => cell_update c ka ke tj cj ti) t C.
Proof.
  unfold Sim.dose_update. revert C.
  induction t as [|x t IH]; intros [|c0 C] Hlen; simpl in *; try discriminate;
    auto.
  unfold cell_update at 1.
  destruct (Rgeb (x - ti) 0); simpl; f_equal; apply IH; lia.
Qed.

Lemma dose_update_length (t C : list R) (ti : R) :
  length C = length t ->
  length (Sim.dose_update c ka ke t C ti) = length t.
Proof.
  intros Hlen. rewrite dose_update_zip by exact Hlen. revert C Hlen.
  induction t as [|x t IH]; intros [|c0 C] Hlen; simpl in *; try discriminate;
    auto.
Qed.

Lemma dose_update_nth (t C : list R) (ti : R) (j : nat) (tj cj : R) :
  length C = length t ->
  nth_error t j = Some tj -> nth_error C j = Some cj ->
  nth_error (Sim.dose_update c ka ke t C ti) j = Some (cell_update c ka ke tj cj ti).
Proof.
  intros Hlen. rewrite dose_update_zip by exact Hlen. revert C j Hlen.
  induction t as [|x t IH]; intros [|c0 C] [|j] Hlen Ht HC; simpl in *;
    try discriminate.
  - now inversion Ht; inversion HC.
  - apply IH; auto.
Qed.

Lemma fold_dose_length (t : list R) (ds : list R) (C : list R) :
  length C = length t ->
  length (fold_left (Sim.dose_update c ka ke t) ds C) = length t.
Proof.
  revert C. induction ds as [|ti ds IH]; intros C Hlen; simpl; auto.
  apply IH. now apply dose_update_length.
Qed.

Lemma fold_dose_nth (t : list R) (ds : list R) (C : list R) (j : nat)
  (tj cj : R) :
  length C = length t ->
  nth_error t j = Some tj -> nth_error C j = Some cj ->
  nth_error (fold_left (Sim.dose_update c ka ke t) ds C) j
  = Some (fold_left (cell_update c ka ke tj) ds cj).
Proof.
  revert C cj. induction ds as [|ti ds IH]; intros C cj Hlen Ht HC; simpl; auto.
  apply IH; auto using dose_update_length, dose_update_nth.
Qed.

Lemma fold_cell_update_sum (tj cj : R) (ds : list R) :
  fold_left (cell_update c ka ke tj) ds cj
  = cj + Spec.Rsum
           (map (fun ti => c * (exp (- ke * (tj - ti)) - exp (- ka * (tj - ti))))
              (filter (fun ti => Rleb ti tj) ds)).
Proof.
  revert cj. induction ds as [|ti ds IH]; intros cj; simpl.
  - lra.
  - rewrite IH. unfold cell_update, Rgeb, Rleb.
    destruct (Rge_dec (tj - ti) 0), (Rle_dec ti tj); simpl; lra.
Qed.

End Pointwise.

(** ** Scalar facts *)

Lemma eps_pos : 0 < eps.
Proof. unfold eps. apply Rinv_0_lt_compat. apply pow_lt. lra. Qed.

Lemma py_max_ge_l (a b : R) : a <= py_max a b.
Proof. unfold py_max. destruct (Rgt_dec b a); lra. Qed.


Lemma guard_pos (x : R) : 0 < py_max eps x.
Proof. pose proof eps_pos. pose proof (py_max_ge_l eps x). lra. Qed.

Lemma py_div_ok (a b : R) : b <> 0 -> py_div a b = Ok (a / b).
Proof. intros Hb. unfold py_div. destruct (Req_dec_T b 0); [contradiction|reflexivity]. Qed.

Lemma py_div_zero (a : R) : py_div a 0 = Raise ZeroDivisionError.
Proof. unfold py_div. destruct (Req_dec_T 0 0); [reflexivity|contradiction]. Qed.

Lemma coef_ok (D F ka ke V : R) :
  V <> 0 ->
  Sim.coef D F ka ke V = Ok (F * D * ka / (V * py_max eps (ka - ke))).
Proof.
  intros HV. unfold Sim.coef. apply py_div_ok.
  pose proof (guard_pos (ka - ke)). nra.
Qed.

Lemma coef_zero_volume (D F ka ke : R) :
  Sim.coef D F ka ke 0 = Raise ZeroDivisionError.
Proof. unfold Sim.coef. rewrite Rmult_0_l. apply py_div_zero. Qed.

Lemma zeros_like_length (t : list R) : length (Sim.zeros_like t) = length t.
Proof. apply length_map. Qed.

Lemma zeros_like_nth (t : list R) (j : nat) (tj : R) :
  nth_error t j = Some tj -> nth_error (Sim.zeros_like t) j = Some 0.
Proof.
  intros H. unfold Sim.zeros_like. rewrite nth_error_map, H. reflexivity.
Qed.

(** The simulator returns whenever the volume is not zero, and then its
    cell for the grid point [tj] is the fold of [cell_update] from 0. *)
Lemma simulate_cells (t ds : list R) (D F ka ke V : R) :
  V <> 0 ->
  exists C,
    Sim.oral_one_comp_conc t ds D F ka ke V = Ok C /\
    length C = length t /\
    forall j tj,
      nth_error t j = Some tj ->
      nth_error C j
      = Some (fold_left
                (cell_update (F * D * ka / (V * py_max eps (ka - ke))) ka ke tj)
                ds 0).
Proof.
  intros HV. unfold Sim.oral_one_comp_conc. rewrite coef_ok by exact HV.
  simpl. eexists. split; [reflexivity|]. split.
  - apply fold_dose_length, zeros_like_length.
  - intros j tj Hj. apply fold_dose_nth;
      [apply zeros_like_length | exact Hj | eapply zeros_like_nth; exact Hj].
Qed.


Lemma guard_of_negative (x : R) : x <= 0 -> py_max eps x = eps.
Proof.
  intros Hx. pose proof eps_pos. unfold py_max.
  destruct (Rgt_dec x eps); lra.
Qed.


Lemma cell_update_before (c ka ke tj cj ti : R) :
  tj < ti -> cell_update c ka ke tj cj ti = cj.
Proof.
  intros Hlt. unfold cell_update, Rgeb.
  destruct (Rge_dec (tj - ti) 0); [lra|reflexivity].
Qed.

Lemma cell_update_after (c ka ke tj cj ti : R) :
  ti <= tj ->
  cell_update c ka ke tj cj ti
  = cj + c * (exp (- ke * (tj - ti)) - exp (- ka * (tj - ti))).
Proof.
  intros Hle. unfold cell_update, Rgeb.
  destruct (Rge_dec (tj - ti) 0); [reflexivity|lra].
Qed.

(** ** A zero volume *)


(** ** The empty schedule (C8) *)




(** ** Causality (C4) *)

(** C4.  For a grid point [tj] (at index [j]) that lies before the dose
    time [ti]: the loop pass of that dose leaves the cell of [tj] as it
    was; with that dose anywhere in a schedule, the simulated value at
    [tj] is the one of the schedule without it; and the curve of that dose
    alone is exactly 0 at [tj]. *)
Theorem dose_contributes_nothing_before
  (t ds1 ds2 : list R) (D F ka ke V ti : R) (j : nat) (tj : R) :
  nth_error t j = Some tj ->
  tj < ti ->
  (forall c C cj,
      length C = length t -> nth_error C j = Some cj ->
      nth_error (Sim.dose_update c ka ke t C ti) j = Some cj) /\
  rmap (fun C => nth_error C j)
    (Sim.oral_one_comp_conc t (ds1 ++ ti :: ds2) D F ka ke V)
  = rmap (fun C => nth_error C j)
      (Sim.oral_one_comp_conc t (ds1 ++ ds2) D F ka ke V) /\
  (V <> 0 ->
   rmap (fun C => nth_error C j) (Sim.oral_one_comp_conc t [ti] D F ka ke V)
   = Ok (Some 0)).
Proof.
  intros Hj Hlt. split; [|split].
  - intros c C cj Hlen HC.
    rewrite (dose_update_nth c ka ke t C ti j tj cj Hlen Hj HC).
    now rewrite cell_update_before.
  - unfold Sim.oral_one_comp_conc.
    destruct (Sim.coef D F ka ke V) as [c|e]; simpl; [|reflexivity].
    unfold rmap; simpl. f_equal.
    rewrite !(fold_dose_nth c ka ke t _ _ j tj 0)
      by (auto using zeros_like_length; eapply zeros_like_nth; eassumption).
    f_equal. rewrite !fold_left_app. simpl.
    now rewrite cell_update_before.
  - intros HV. unfold Sim.oral_one_comp_conc. rewrite coef_ok by exact HV.
    unfold rmap; simpl. f_equal.
    rewrite (dose_update_nth _ ka ke t _ ti j tj 0)
      by (auto using zeros_like_length; eapply zeros_like_nth; eassumption).
    now rewrite cell_update_before.
Qed.

Lemma dose_contributes_nothing_before_witness :
  rmap (fun C => nth_error C 1)
    (Sim.oral_one_comp_conc [0; 1; 9] ([0] ++ 8 :: [16]) 1000 (88 / 100) 2 1 63)
  = rmap (fun C => nth_error C 1)
      (Sim.oral_one_comp_conc [0; 1; 9] ([0] ++ [16]) 1000 (88 / 100) 2 1 63).
Proof.
  apply (dose_contributes_nothing_before
           [0; 1; 9] [0] [16] 1000 (88 / 100) 2 1 63 8 1 1).
  - reflexivity.
  - lra.
Defined.

(** ** The sign of the curve (C5) *)


Lemma kernel_term_neg (ka ke d : R) :
  ka < ke -> 0 < d -> exp (- ke * d) - exp (- ka * d) < 0.
Proof.
  intros Hk Hd.
  assert (Hlt : - ke * d < - ka * d) by nra.
  apply exp_increasing in Hlt. lra.
Qed.



(** C5, the code at a failing input.  With [ka = 1 < ke = 2] (and
    [D = 1], [F = 1/2], [V = 1], one dose at 0, grid [0, 1]) the guard of
    line 11 replaces [ka - ke = -1] by [1e-12]; the coefficient is
    positive, the difference of exponentials is negative, and the value at
    [t = 1] is below 0. *)
Theorem simulate_negative_when_ka_lt_ke :
  exists c1,
    Sim.oral_one_comp_conc [0; 1] [0] 1 (1 / 2) 1 2 1 = Ok [0; c1] /\
    c1 = 1 / 2 * 1 * 1 / (1 * eps) * (exp (- 2 * (1 - 0)) - exp (- 1 * (1 - 0))) /\
    c1 < 0.
Proof.
  eexists. split; [|split].
  - unfold Sim.oral_one_comp_conc. rewrite coef_ok by lra.
    rewrite guard_of_negative by lra. simpl.
    rewrite dose_update_zip by reflexivity. simpl.
    rewrite !cell_update_after by lra.
    replace (0 - 0) with 0 by lra.
    rewrite !Rmult_0_r, Rminus_diag, Rmult_0_r, Rplus_0_l, Rplus_0_l.
    reflexivity.
  - reflexivity.
  - pose proof eps_pos as He.
    pose proof (kernel_term_neg 1 2 (1 - 0) ltac:(lra) ltac:(lra)) as Hneg.
    assert (Hc : 0 < 1 / 2 * 1 * 1 / (1 * eps))
      by (apply Rdiv_lt_0_compat; lra).
    nra.
Qed.

(** ** The guard of the coefficient (C2) *)




(** ** The superposition (C1) *)





(** ** The exposure metrics (C3, C9) *)

Lemma Rleb_true (x y : R) : Rleb x y = true -> x <= y.
Proof. unfold Rleb. destruct (Rle_dec x y); [auto|discriminate]. Qed.

Lemma Rleb_false (x y : R) : Rleb x y = false -> y < x.
Proof. unfold Rleb. destruct (Rle_dec x y); [discriminate|lra]. Qed.

(** The scan keeps, for the prefix [pre] already seen, the first index
    [best] of its greatest value [mp]. *)
Lemma argmax_scan_spec (l pre : list R) (mp : R) (best : nat) :
  nth_error pre best = Some mp ->
  (forall x, In x pre -> x <= mp) ->
  (forall j c, (j < best)%nat -> nth_error pre j = Some c -> c < mp) ->
  exists m,
    nth_error (pre ++ l) (Sim.argmax_scan mp best (length pre) l) = Some m /\
    (forall x, In x (pre ++ l) -> x <= m) /\
    (forall j c,
        (j < Sim.argmax_scan mp best (length pre) l)%nat ->
        nth_error (pre ++ l) j = Some c -> c < m).
Proof.
  revert pre mp best.
  induction l as [|x l IH]; intros pre mp best Hbest Hmax Hfirst; simpl.
  - rewrite app_nil_r. eauto.
  - assert (Hlen : length (pre ++ [x]) = S (length pre))
      by (rewrite length_app; simpl; lia).
    assert (Hb : (best < length pre)%nat)
      by (apply nth_error_Some; congruence).
    replace (pre ++ x :: l) with ((pre ++ [x]) ++ l)
      by (rewrite <- app_assoc; reflexivity).
    rewrite <- Hlen.
    destruct (Rleb x mp) eqn:Hx.
    + apply Rleb_true in Hx. apply IH.
      * rewrite nth_error_app1 by exact Hb. exact Hbest.
      * intros y Hy. apply in_app_or in Hy.
        destruct Hy as [Hy|[<-|[]]]; auto.
      * intros j c Hj Hc. apply (Hfirst j c Hj).
        rewrite nth_error_app1 in Hc by lia. exact Hc.
    + apply Rleb_false in Hx. apply IH.
      * rewrite nth_error_app2, Nat.sub_diag by lia. reflexivity.
      * intros y Hy. apply in_app_or in Hy.
        destruct Hy as [Hy|[<-|[]]]; [|lra].
        specialize (Hmax y Hy). lra.
      * intros j c Hj Hc. rewrite nth_error_app1 in Hc by exact Hj.
        apply nth_error_In in Hc. specialize (Hmax c Hc). lra.
Qed.

Lemma np_argmax_spec (C : list R) :
  C <> [] ->
  exists idx m,
    Sim.np_argmax C = Ok idx /\
    nth_error C idx = Some m /\
    (forall x, In x C -> x <= m) /\
    (forall j c, (j < idx)%nat -> nth_error C j = Some c -> c < m).
Proof.
  destruct C as [|c0 C]; [congruence|]. intros _.
  destruct (argmax_scan_spec C [c0] c0 0) as (m & H1 & H2 & H3).
  - reflexivity.
  - intros x [<-|[]]. lra.
  - intros j c Hj. lia.
  - exists (Sim.argmax_scan c0 0 1 C), m. simpl in *. auto.
Qed.

Lemma np_sum_Rsum (l : list R) : Sim.np_sum l = Spec.Rsum l.
Proof.
  unfold Sim.np_sum.
  assert (H : forall a, fold_left Rplus l a = a + Spec.Rsum l).
  { induction l as [|x l IH]; intros a; simpl; [lra|]. rewrite IH. lra. }
  rewrite H. lra.
Qed.

Lemma adjacent_length {A : Type} (f : R -> R -> A) (x : list R) :
  length (zip_with f (tl x) (removelast x)) = (length x - 1)%nat.
Proof.
  destruct x as [|x0 x]; [reflexivity|]. simpl tl. revert x0.
  induction x as [|x1 x IH]; intros x0; [reflexivity|].
  change (removelast (x0 :: x1 :: x)) with (x0 :: removelast (x1 :: x)).
  cbn [zip_with length]. rewrite (IH x1). cbn [length]. lia.
Qed.

(** [np.trapz]'s products, halved and summed, are the trapezoid areas. *)
Lemma trapz_terms (t C : list R) :
  Spec.Rsum
    (map (fun v => v / 2)
       (zip_with Rmult (Sim.np_diff t)
          (zip_with Rplus (tl C) (removelast C))))
  = Spec.trapezoid_sum t C.
Proof.
  unfold Sim.np_diff. revert C.
  induction t as [|t0 t IH]; intros C; [reflexivity|].
  destruct t as [|t1 t]; [destruct C; reflexivity|].
  destruct C as [|c0 [|c1 C]]; try reflexivity.
  specialize (IH (c1 :: C)).
  change (removelast (t0 :: t1 :: t)) with (t0 :: removelast (t1 :: t)).
  change (removelast (c0 :: c1 :: C)) with (c0 :: removelast (c1 :: C)).
  change (Spec.trapezoid_sum (t0 :: t1 :: t) (c0 :: c1 :: C))
    with ((c0 + c1) / 2 * (t1 - t0) + Spec.trapezoid_sum (t1 :: t) (c1 :: C)).
  rewrite <- IH. simpl. lra.
Qed.

Lemma np_trapz_trapezoid (t C : list R) :
  length t = length C ->
  Sim.np_trapz C t = Ok (Spec.trapezoid_sum t C).
Proof.
  intros Hlen. unfold Sim.np_trapz, Sim.broadcast_mul.
  unfold Sim.np_diff at 1. rewrite !adjacent_length, Hlen, Nat.eqb_refl.
  simpl. now rewrite np_sum_Rsum, trapz_terms.
Qed.

(** C3.  For every non-empty curve and grid of the same length,
    [pk_metrics] returns: Cmax, the greatest value of the curve; Tmax, the
    grid point at the first index [idx] at which the curve holds Cmax (so
    Cmax is the curve at the index of Tmax, and Tmax is a point of the
    grid); and AUC, the sum over adjacent pairs of
    [(C_i + C_{i+1}) / 2 * (t_{i+1} - t_i)]. *)
Theorem pk_metrics_correct (t C : list R) :
  C <> [] ->
  length t = length C ->
  exists Cmax Tmax AUC idx,
    Sim.pk_metrics t C = Ok (Cmax, Tmax, AUC) /\
    Spec.is_max C Cmax /\
    Spec.first_index_of C Cmax idx /\
    nth_error t idx = Some Tmax /\
    In Tmax t /\
    AUC = Spec.trapezoid_sum t C.
Proof.
  intros Hne Hlen.
  destruct (np_argmax_spec C Hne) as (idx & m & Harg & Hm & Hmax & Hfirst).
  assert (Hidx : (idx < length t)%nat)
    by (rewrite Hlen; apply nth_error_Some; congruence).
  destruct (nth_error t idx) as [tm|] eqn:Htm;
    [|apply nth_error_None in Htm; lia].
  exists m, tm, (Spec.trapezoid_sum t C), idx.
  split; [|split; [|split; [|split; [|split]]]].
  - unfold Sim.pk_metrics. rewrite Harg. simpl. unfold Sim.getitem.
    rewrite Hm, Htm. simpl. rewrite np_trapz_trapezoid by exact Hlen.
    reflexivity.
  - split; [eapply nth_error_In; exact Hm|exact Hmax].
  - split; [exact Hm|]. intros j c Hj Hc Heq.
    specialize (Hfirst j c Hj Hc). lra.
  - exact Htm.
  - eapply nth_error_In; exact Htm.
  - reflexivity.
Qed.

Lemma pk_metrics_correct_witness :
  exists Cmax Tmax AUC idx,
    Sim.pk_metrics [0; 1; 2; 3] [0; 5; 5; 1] = Ok (Cmax, Tmax, AUC) /\
    Spec.is_max [0; 5; 5; 1] Cmax /\
    Spec.first_index_of [0; 5; 5; 1] Cmax idx /\
    nth_error [0; 1; 2; 3] idx = Some Tmax /\
    In Tmax [0; 1; 2; 3] /\
    AUC = Spec.trapezoid_sum [0; 1; 2; 3] [0; 5; 5; 1].
Proof.
  apply (pk_metrics_correct [0; 1; 2; 3] [0; 5; 5; 1]).
  - discriminate.
  - reflexivity.
Defined.

(** C9, counterexample.  On the empty grid and curve [np.argmax] raises
    [ValueError]: no metrics are returned. *)
Lemma pk_metrics_empty_raises :
  Sim.pk_metrics [] [] = Raise ValueError /\
  ~ exists m, Sim.pk_metrics [] [] = Ok m.
Proof.
  split; [reflexivity|]. intros [m Hm]. discriminate.
Qed.

(** C9, amended.  Given a grid and a curve of length 1, [pk_metrics]
    returns AUC = 0 and, as Cmax and Tmax, the values of the single point;
    given a curve of length 0 it raises [ValueError], whatever the grid. *)
Theorem pk_metrics_degenerate :
  (forall t0 c0, Sim.pk_metrics [t0] [c0] = Ok (c0, t0, 0)) /\
  (forall t, Sim.pk_metrics t [] = Raise ValueError).
Proof.
  split; reflexivity.
Qed.

(** ** The dose schedule (C7) *)

(** C7.  For every [tau > 0], integer [n >= 1] and [t_lag >= 0], the dose
    schedule holds exactly [n] times, in order, the [i]-th being
    [i * tau + t_lag] for [0 <= i < n]. *)
Theorem dose_times_spec (tau : R) (n : Z) (tlag : R) :
  0 < tau ->
  (1 <= n)%Z ->
  0 <= tlag ->
  Z.of_nat (length (Sim.dose_times tau n tlag)) = n /\
  forall i : Z,
    (0 <= i < n)%Z ->
    nth_error (Sim.dose_times tau n tlag) (Z.to_nat i)
    = Some (IZR i * tau + tlag).
Proof.
  intros _ Hn _. unfold Sim.dose_times, Sim.py_range. split.
  - rewrite !length_map, length_seq. lia.
  - intros i Hi. rewrite !nth_error_map, nth_error_seq.
    replace (Z.to_nat i <? Z.to_nat n)%nat with true
      by (symmetry; apply Nat.ltb_lt; lia).
    simpl. now rewrite Z2Nat.id by lia.
Qed.

Lemma dose_times_spec_witness :
  Z.of_nat (length (Sim.dose_times 8 3 0)) = 3%Z /\
  forall i : Z,
    (0 <= i < 3)%Z ->
    nth_error (Sim.dose_times 8 3 0) (Z.to_nat i) = Some (IZR i * 8 + 0).
Proof.
  apply (dose_times_spec 8 3 0); [lra | lia | lra].
Defined.

(** ** The time grid (C6) *)




(** C6, the code at a failing input.  For [t_end = 7.0] and [dt = 1.4]
    the binary64 quotient [(7.0 + 1.4) / 1.4] is just above 6, its ceiling
    is 7, and the grid has seven points: the sixth is [7.0], already at
    [t_end], and a seventh beyond it follows.  ([0x1.6666666666666p+0] is
    the binary64 number that the literal [1.4] denotes.) *)
Theorem time_grid_overshoots :
  exists g last,
    Binary64.time_grid 7%float 0x1.6666666666666p+0%float = Ok g /\
    length g = 7%nat /\
    nth_error g 5 = Some 7%float /\
    nth_error g 6 = Some last /\
    PrimFloat.ltb 7%float last = true.
Proof.
  eexists _, _. split; [vm_compute; reflexivity|].
  repeat split; vm_compute; reflexivity.
Qed.

(** ** The store model: what the calls write (C10) *)

Lemma set_nth_last (s : Heap.store) (c a : list R) :
  Heap.set_nth (s ++ [c]) (length s) a = s ++ [a].
Proof.
  induction s as [|b s IH]; simpl; [reflexivity|]. now rewrite IH.
Qed.

Lemma load_new (s : Heap.store) (c : list R) :
  Heap.load (length s) (s ++ [c]) = (Ok c, s ++ [c]).
Proof.
  unfold Heap.load. rewrite nth_error_app2, Nat.sub_diag by lia. reflexivity.
Qed.


(** One pass of the loop writes the new array only. *)
Lemma loop_body_frame (s : Heap.store) (c : list R) (t d : Heap.loc)
  (coef ka ke : R) (i : nat) :
  exists c',
    snd (Heap.loop_body t d (length s) coef ka ke i (s ++ [c])) = s ++ [c'].
Proof.
  unfold Heap.loop_body, Heap.bind, Heap.lift, Heap.store_array.
  unfold Heap.load at 1.
  destruct (nth_error (s ++ [c]) d) as [dv|]; [|simpl; eauto].
  destruct (Sim.getitem dv i) as [ti|e]; [|simpl; eauto].
  unfold Heap.load at 1.
  destruct (nth_error (s ++ [c]) t) as [tv|]; [|simpl; eauto].
  rewrite load_new. simpl. rewrite set_nth_last. eauto.
Qed.

Lemma for_each_frame (s : Heap.store) (t d : Heap.loc) (coef ka ke : R)
  (l : list nat) (c : list R) :
  exists c',
    snd (Heap.for_each l (Heap.loop_body t d (length s) coef ka ke) (s ++ [c]))
    = s ++ [c'].
Proof.
  revert c. induction l as [|i l IH]; intros c; simpl.
  - eauto.
  - unfold Heap.bind.
    destruct (loop_body_frame s c t d coef ka ke i) as [c' Hc'].
    destruct (Heap.loop_body t d (length s) coef ka ke i (s ++ [c]))
      as [[[]|e] s']; simpl in Hc'; subst s'.
    + apply IH.
    + simpl; eauto.
Qed.

(** Whatever the arguments, the store after the simulator is the store
    before it, with at most one array added at the end. *)
Lemma simulate_store (s : Heap.store) (t d : Heap.loc) (D F ka ke V : R) :
  exists extra,
    snd (Heap.oral_one_comp_conc t d D F ka ke V s) = s ++ extra.
Proof.
  unfold Heap.oral_one_comp_conc, Heap.bind, Heap.lift, Heap.new_array.
  unfold Heap.load at 1.
  destruct (nth_error s t) as [tv|]; [|exists []; now rewrite app_nil_r].
  destruct (Sim.coef D F ka ke V) as [c|e]; [|simpl; eauto].
  unfold Heap.load at 1.
  destruct (nth_error (s ++ [Sim.zeros_like tv]) d) as [dv|]; [|simpl; eauto].
  destruct (for_each_frame s t d c ka ke (seq 0 (length dv)) (Sim.zeros_like tv))
    as [c' Hc'].
  destruct (Heap.for_each _ _ _) as [[[]|e] s']; simpl in Hc'; subst s';
    simpl; eauto.
Qed.

Lemma pk_metrics_store (s : Heap.store) (t C : Heap.loc) :
  snd (Heap.pk_metrics t C s) = s.
Proof.
  unfold Heap.pk_metrics, Heap.bind, Heap.lift, Heap.ret.
  unfold Heap.load at 1.
  destruct (nth_error s C) as [Cv|]; [|reflexivity].
  destruct (Sim.np_argmax Cv) as [idx|e]; [|reflexivity].
  destruct (Sim.getitem Cv idx) as [cm|e]; [|reflexivity].
  unfold Heap.load.
  destruct (nth_error s t) as [tv|]; [|reflexivity].
  destruct (Sim.getitem tv idx) as [tm|e]; [|reflexivity].
  destruct (Sim.np_trapz Cv tv) as [auc|e]; reflexivity.
Qed.

(** *** The store model computes what [Sim] computes *)





(** C10.  Neither the simulator nor the metrics extractor writes into an
    array it is given: every array [a] that the store holds before the
    call (at any address [l]: the time grid, the dose schedule and the
    curve among them) is there, element for element, after the call,
    whether the call returns or raises. *)
Theorem inputs_not_mutated
  (s : Heap.store) (t d C : Heap.loc) (D F ka ke V : R)
  (l : Heap.loc) (a : list R) :
  nth_error s l = Some a ->
  nth_error (snd (Heap.oral_one_comp_conc t d D F ka ke V s)) l = Some a /\
  nth_error (snd (Heap.pk_metrics t C s)) l = Some a.
Proof.
  intros Hl. split.
  - destruct (simulate_store s t d D F ka ke V) as [extra ->].
    rewrite nth_error_app1 by (apply nth_error_Some; congruence).
    exact Hl.
  - rewrite pk_metrics_store. exact Hl.
Qed.

Lemma inputs_not_mutated_witness :
  nth_error
    (snd (Heap.oral_one_comp_conc 0%nat 1%nat 1000 (88 / 100) 2 1 63
            [[0; 1; 2]; [0; 1]; [0; 3; 4]]))
    0%nat
  = Some [0; 1; 2] /\
  nth_error
    (snd (Heap.pk_metrics 0%nat 2%nat [[0; 1; 2]; [0; 1]; [0; 3; 4]])) 0%nat
  = Some [0; 1; 2].
Proof.
  apply (inputs_not_mutated
           [[0; 1; 2]; [0; 1]; [0; 3; 4]] 0%nat 1%nat 2%nat
           1000 (88 / 100) 2 1 63 0%nat [0; 1; 2]).
  reflexivity.
Defined.

(** ** Further properties of the simulator *)



(** With a volume that is not zero the curve is the superposition, grid
    point by grid point. *)
Lemma simulate_closed_form (t ds : list R) (D F ka ke V : R) :
  V <> 0 ->
  Sim.oral_one_comp_conc t ds D F ka ke V
  = Ok (map (Spec.superposition D F ka ke V ds) t).
Proof.
  intros HV.
  destruct (simulate_cells t ds D F ka ke V HV) as (C & HC & Hlen & Hnth).
  rewrite HC. f_equal. apply nth_error_ext. intros n.
  rewrite nth_error_map.
  destruct (nth_error t n) as [tj|] eqn:Htj; simpl.
  - rewrite (Hnth n tj Htj), fold_cell_update_sum.
    unfold Spec.superposition, Spec.kernel. now rewrite Rplus_0_l.
  - apply nth_error_None. rewrite Hlen. now apply nth_error_None.
Qed.

Lemma simulate_zero_volume (t ds : list R) (D F ka ke : R) :
  Sim.oral_one_comp_conc t ds D F ka ke 0 = Raise ZeroDivisionError.
Proof.
  unfold Sim.oral_one_comp_conc. now rewrite coef_zero_volume.
Qed.


Lemma superposition_cons (D F ka ke V ti : R) (ds : list R) (tj : R) :
  Spec.superposition D F ka ke V (ti :: ds) tj
  = (if Rleb ti tj then Spec.kernel D F ka ke V tj ti else 0)
    + Spec.superposition D F ka ke V ds tj.
Proof.
  unfold Spec.superposition. simpl. destruct (Rleb ti tj); simpl; lra.
Qed.



Lemma superposition_perm (D F ka ke V : R) (ds ds' : list R) (tj : R) :
  Permutation ds ds' ->
  Spec.superposition D F ka ke V ds tj = Spec.superposition D F ka ke V ds' tj.
Proof.
  induction 1 as [|x l l' _ IH|x y l|l l' l'' _ IH1 _ IH2].
  - reflexivity.
  - rewrite !superposition_cons, IH. reflexivity.
  - rewrite !superposition_cons. lra.
  - now rewrite IH1.
Qed.

(** X2.  The order in which the doses are listed does not matter: a permuted
    schedule gives the same result. *)
Theorem simulate_schedule_order (t ds ds' : list R) (D F ka ke V : R) :
  Permutation ds ds' ->
  Sim.oral_one_comp_conc t ds D F ka ke V
  = Sim.oral_one_comp_conc t ds' D F ka ke V.
Proof.
  intros Hp. destruct (Req_dec_T V 0) as [->|HV].
  - now rewrite !simulate_zero_volume.
  - rewrite !simulate_closed_form by exact HV. f_equal.
    apply map_ext. intros tj. now apply superposition_perm.
Qed.

Lemma simulate_schedule_order_witness :
  Sim.oral_one_comp_conc [0; 1; 9] [0; 8] 1000 (88 / 100) 2 1 63
  = Sim.oral_one_comp_conc [0; 1; 9] [8; 0] 1000 (88 / 100) 2 1 63.
Proof.
  apply (simulate_schedule_order [0; 1; 9] [0; 8] [8; 0] 1000 (88 / 100) 2 1 63).
  apply perm_swap.
Defined.
























(** ** Further properties of the metrics *)
















(** ** Further properties of the dose schedule *)







(** ** The page script, lines 46-53 *)








Lemma defaults_in_range : App.in_range App.defaults.
Proof.
  unfold App.in_range, App.defaults. simpl. repeat split; try lra; lia.
Qed.








(** ** The result array *)


